(** * VecLdStInfo: the per-instruction record of a vector load/store

    A shallow embedding of [src/VecLdStInfo.hpp] (namespace [WdRiscv]):
    the element record [VecLdStElem], the operation record [VecLdStInfo]
    and its member functions, followed by the properties of the record's
    life cycle.

    Modelling choices.
    - [uint64_t] and [unsigned] values are binary naturals ([N]).  The
      header performs no arithmetic on them: every member function only
      stores its (already typed) arguments, so no wrap-around can occur on
      these fields.  The ranges are kept as the predicates [in_uint64] and
      [in_unsigned].
    - [std::vector<VecLdStElem>] is a [list], oldest element first.
      [size()] has type [size_t]; the one subtraction the header does on
      it ([elems_.size() - 1]) is written with its 64-bit wrap-around.
    - A member function that cannot fail is a function on records; one
      that can ([setLastElem], [removeLastElem]) returns an [outcome].
    - [assert] comes from <cassert>: it aborts on a false condition unless
      [NDEBUG] is defined, in which case it expands to nothing.  The
      build's choice is the parameter [ndebug]. *)

From Stdlib Require Import PeanoNat NArith List Bool Lia.
Import ListNotations.

Module WdRiscv.

Local Open Scope N_scope.

(** ** Integer types *)

Definition uint64_t := N.
Definition unsigned := N.
Definition size_t := N.

Definition in_uint64 (x : uint64_t) : Prop := x < 2 ^ 64.
Definition in_unsigned (x : unsigned) : Prop := x < 2 ^ 32.

(** [a - b] on [size_t]: unsigned arithmetic modulo 2^64. *)
Definition size_sub (a b : size_t) : size_t := (a + 2 ^ 64 - b mod 2 ^ 64) mod 2 ^ 64.

(** ** Outcomes of a member function call *)

Inductive outcome (A : Type) : Type :=
| Ok (a : A)      (* the call returns *)
| AssertFail      (* an [assert] failed: the program aborts *)
| Undefined       (* undefined behaviour: a library precondition broken,
                     with no check in the header *)
| LengthError.    (* [std::length_error] thrown by the vector *)

Arguments Ok {A} a.
Arguments AssertFail {A}.
Arguments Undefined {A}.
Arguments LengthError {A}.

Definition bind {A B : Type} (m : outcome A) (k : A -> outcome B) : outcome B :=
  match m with
  | Ok a => k a
  | AssertFail => AssertFail
  | Undefined => Undefined
  | LengthError => LengthError
  end.

Notation "x <- m ;; k" := (bind m (fun x => k))
  (at level 61, m at next level, right associativity).

Definition returns {A : Type} (m : outcome A) : bool :=
  match m with Ok _ => true | _ => false end.

(** [assert(c)] of <cassert>. *)
Definition assert_ (ndebug : bool) (c : bool) : outcome unit :=
  if ndebug then Ok tt else if c then Ok tt else AssertFail.

(** ** VecLdStElem *)

Record VecLdStElem : Type := mkVecLdStElem {
  va_ : uint64_t;      (* Virtual address of data. *)
  pa_ : uint64_t;      (* Physical address of data. *)
  pa2_ : uint64_t;     (* For page crossers: addr on 2nd page. *)
  data_ : uint64_t;    (* Load/store data. *)
  ix_ : unsigned;      (* Index of element in vector register group. *)
  field_ : unsigned;   (* For segment load store: field of element. *)
  skip_ : bool         (* True if element is not active. *)
}.

(** [VecLdStElem()]: the default member initialisers. *)
Definition VecLdStElem_default : VecLdStElem :=
  mkVecLdStElem 0 0 0 0 0 0 false.

(** [VecLdStElem(va, pa, pa2, data, ix, skipped, field)]: note the order
    of the last two parameters. *)
Definition VecLdStElem_new (va pa pa2 data : uint64_t) (ix : unsigned)
    (skipped : bool) (field : unsigned) : VecLdStElem :=
  mkVecLdStElem va pa pa2 data ix field skipped.

Definition set_pa_ (v : uint64_t) (e : VecLdStElem) : VecLdStElem :=
  mkVecLdStElem (va_ e) v (pa2_ e) (data_ e) (ix_ e) (field_ e) (skip_ e).
Definition set_pa2_ (v : uint64_t) (e : VecLdStElem) : VecLdStElem :=
  mkVecLdStElem (va_ e) (pa_ e) v (data_ e) (ix_ e) (field_ e) (skip_ e).
Definition set_data_ (v : uint64_t) (e : VecLdStElem) : VecLdStElem :=
  mkVecLdStElem (va_ e) (pa_ e) (pa2_ e) v (ix_ e) (field_ e) (skip_ e).

(** ** std::vector<VecLdStElem> *)

Definition vec := list VecLdStElem.

Definition vec_empty (v : vec) : bool :=
  match v with [] => true | _ :: _ => false end.

Definition vec_size (v : vec) : size_t := N.of_nat (length v).

(** [max_size()]: the library's bound on the number of elements, for
    libstdc++ [PTRDIFF_MAX / sizeof(VecLdStElem)] with a 48-byte element.
    Every vector satisfies [size() <= max_size()]. *)
Definition vec_max_size : size_t := (2 ^ 63 - 1) / 48.

Definition vec_valid (v : vec) : Prop := vec_size v <= vec_max_size.

(** [push_back(e)].  Running out of storage is not modelled. *)
Definition vec_push_back (e : VecLdStElem) (v : vec) : vec := v ++ [e].

(** [back() = ...]: an assignment through the reference [back()] returns.
    Calling [back()] on an empty vector is undefined behaviour. *)
Fixpoint vec_modify_back (f : VecLdStElem -> VecLdStElem) (v : vec) : outcome vec :=
  match v with
  | [] => Undefined
  | [e] => Ok [f e]
  | e :: rest => rest' <- vec_modify_back f rest ;; Ok (e :: rest')
  end.

(** [resize(n)]: keeps the first [n] elements when [n <= size()];
    otherwise appends value-initialised elements, and throws
    [std::length_error] when [n] exceeds [max_size()]. *)
Definition vec_resize (n : size_t) (v : vec) : outcome vec :=
  if n <=? vec_size v then Ok (firstn (N.to_nat n) v)
  else if vec_max_size <? n then LengthError
  else Ok (v ++ repeat VecLdStElem_default (N.to_nat (n - vec_size v))).

(** [std::all_of(first, last, pred)]. *)
Definition all_of (pred : VecLdStElem -> bool) (v : vec) : bool := forallb pred v.

(** ** VecLdStInfo *)

Record VecLdStInfo : Type := mkVecLdStInfo {
  elemCount_ : unsigned;     (* VL, elems with ix >= elemCount_ are tail elems. *)
  elemSize_ : unsigned;      (* Elem size in bytes. *)
  vec_ : unsigned;           (* Base data vector register. *)
  ixVec_ : unsigned;         (* Base index vector register. *)
  fields_ : unsigned;        (* For load/store segment. *)
  group_ : unsigned;         (* Group multiplier or 1 if fractional. *)
  ixGroup_ : unsigned;       (* Group multiplier of index vec. *)
  stride_ : uint64_t;        (* For strided load/store. *)
  isLoad_ : bool;            (* True for load instructions. *)
  isIndexed_ : bool;         (* True for indexed instructions. *)
  isSegmented_ : bool;       (* True for load/store segment. *)
  isStrided_ : bool;         (* True for load/store strided. *)
  elems_ : vec               (* Element info. *)
}.

(** The default member initialisers of the struct. *)
Definition VecLdStInfo_default : VecLdStInfo :=
  mkVecLdStInfo 0 0 0 0 0 0 0 0 false false false false [].

(** Assignment to one data member. *)
Definition set_elemCount_ (v : unsigned) (r : VecLdStInfo) : VecLdStInfo :=
  mkVecLdStInfo v (elemSize_ r) (vec_ r) (ixVec_ r) (fields_ r) (group_ r)
    (ixGroup_ r) (stride_ r) (isLoad_ r) (isIndexed_ r) (isSegmented_ r)
    (isStrided_ r) (elems_ r).
Definition set_elemSize_ (v : unsigned) (r : VecLdStInfo) : VecLdStInfo :=
  mkVecLdStInfo (elemCount_ r) v (vec_ r) (ixVec_ r) (fields_ r) (group_ r)
    (ixGroup_ r) (stride_ r) (isLoad_ r) (isIndexed_ r) (isSegmented_ r)
    (isStrided_ r) (elems_ r).
Definition set_vec_ (v : unsigned) (r : VecLdStInfo) : VecLdStInfo :=
  mkVecLdStInfo (elemCount_ r) (elemSize_ r) v (ixVec_ r) (fields_ r) (group_ r)
    (ixGroup_ r) (stride_ r) (isLoad_ r) (isIndexed_ r) (isSegmented_ r)
    (isStrided_ r) (elems_ r).
Definition set_ixVec_ (v : unsigned) (r : VecLdStInfo) : VecLdStInfo :=
  mkVecLdStInfo (elemCount_ r) (elemSize_ r) (vec_ r) v (fields_ r) (group_ r)
    (ixGroup_ r) (stride_ r) (isLoad_ r) (isIndexed_ r) (isSegmented_ r)
    (isStrided_ r) (elems_ r).
Definition set_fields_ (v : unsigned) (r : VecLdStInfo) : VecLdStInfo :=
  mkVecLdStInfo (elemCount_ r) (elemSize_ r) (vec_ r) (ixVec_ r) v (group_ r)
    (ixGroup_ r) (stride_ r) (isLoad_ r) (isIndexed_ r) (isSegmented_ r)
    (isStrided_ r) (elems_ r).
Definition set_group_ (v : unsigned) (r : VecLdStInfo) : VecLdStInfo :=
  mkVecLdStInfo (elemCount_ r) (elemSize_ r) (vec_ r) (ixVec_ r) (fields_ r) v
    (ixGroup_ r) (stride_ r) (isLoad_ r) (isIndexed_ r) (isSegmented_ r)
    (isStrided_ r) (elems_ r).
Definition set_ixGroup_ (v : unsigned) (r : VecLdStInfo) : VecLdStInfo :=
  mkVecLdStInfo (elemCount_ r) (elemSize_ r) (vec_ r) (ixVec_ r) (fields_ r) (group_ r)
    v (stride_ r) (isLoad_ r) (isIndexed_ r) (isSegmented_ r)
    (isStrided_ r) (elems_ r).
Definition set_stride_ (v : uint64_t) (r : VecLdStInfo) : VecLdStInfo :=
  mkVecLdStInfo (elemCount_ r) (elemSize_ r) (vec_ r) (ixVec_ r) (fields_ r) (group_ r)
    (ixGroup_ r) v (isLoad_ r) (isIndexed_ r) (isSegmented_ r)
    (isStrided_ r) (elems_ r).
Definition set_isLoad_ (v : bool) (r : VecLdStInfo) : VecLdStInfo :=
  mkVecLdStInfo (elemCount_ r) (elemSize_ r) (vec_ r) (ixVec_ r) (fields_ r) (group_ r)
    (ixGroup_ r) (stride_ r) v (isIndexed_ r) (isSegmented_ r)
    (isStrided_ r) (elems_ r).
Definition set_isIndexed_ (v : bool) (r : VecLdStInfo) : VecLdStInfo :=
  mkVecLdStInfo (elemCount_ r) (elemSize_ r) (vec_ r) (ixVec_ r) (fields_ r) (group_ r)
    (ixGroup_ r) (stride_ r) (isLoad_ r) v (isSegmented_ r)
    (isStrided_ r) (elems_ r).
Definition set_isSegmented_ (v : bool) (r : VecLdStInfo) : VecLdStInfo :=
  mkVecLdStInfo (elemCount_ r) (elemSize_ r) (vec_ r) (ixVec_ r) (fields_ r) (group_ r)
    (ixGroup_ r) (stride_ r) (isLoad_ r) (isIndexed_ r) v
    (isStrided_ r) (elems_ r).
Definition set_isStrided_ (v : bool) (r : VecLdStInfo) : VecLdStInfo :=
  mkVecLdStInfo (elemCount_ r) (elemSize_ r) (vec_ r) (ixVec_ r) (fields_ r) (group_ r)
    (ixGroup_ r) (stride_ r) (isLoad_ r) (isIndexed_ r) (isSegmented_ r)
    v (elems_ r).
Definition set_elems_ (v : vec) (r : VecLdStInfo) : VecLdStInfo :=
  mkVecLdStInfo (elemCount_ r) (elemSize_ r) (vec_ r) (ixVec_ r) (fields_ r) (group_ r)
    (ixGroup_ r) (stride_ r) (isLoad_ r) (isIndexed_ r) (isSegmented_ r)
    (isStrided_ r) v.

(** ** Member functions *)

(** Return true if no element was loaded/stored by vector instruction. *)
Definition empty (r : VecLdStInfo) : bool := vec_empty (elems_ r).

(** Clear this object. *)
Definition clear (r : VecLdStInfo) : VecLdStInfo :=
  let r := set_elemSize_ 0 r in
  let r := set_elems_ [] r in
  r.

(** Set element size (in bytes), data vector register, group multiplier,
    and type (load or store). *)
Definition init (elemCount elemSize vecReg group : unsigned) (isLoad : bool)
    (r : VecLdStInfo) : VecLdStInfo :=
  let r := set_elemCount_ elemCount r in
  let r := set_elemSize_ elemSize r in
  let r := set_vec_ vecReg r in
  let r := set_group_ group r in
  let r := set_isLoad_ isLoad r in
  let r := set_isIndexed_ false r in
  let r := set_isSegmented_ false r in
  let r := set_isStrided_ false r in
  let r := set_ixVec_ 0 r in
  let r := set_fields_ 0 r in
  r.

Definition initIndexed (elemCount elemSize vecReg ixReg group ixGroup : unsigned)
    (isLoad : bool) (r : VecLdStInfo) : VecLdStInfo :=
  let r := init elemCount elemSize vecReg group isLoad r in
  let r := set_isIndexed_ true r in
  let r := set_ixVec_ ixReg r in
  let r := set_ixGroup_ ixGroup r in
  r.

(** For strided load/store. Similar to init. *)
Definition initStrided (elemCount elemSize vecReg group : unsigned)
    (stride : uint64_t) (isLoad : bool) (r : VecLdStInfo) : VecLdStInfo :=
  let r := init elemCount elemSize vecReg group isLoad r in
  let r := set_isStrided_ true r in
  let r := set_stride_ stride r in
  r.

(** Set the field count. Used for ld/st segment and ld/st whole regs. *)
Definition setFieldCount (fields : unsigned) (isSeg : bool)
    (r : VecLdStInfo) : VecLdStInfo :=
  let r := set_fields_ fields r in
  let r := set_isSegmented_ isSeg r in
  r.

(** Add element information to this object. *)
Definition addElem (elem : VecLdStElem) (r : VecLdStInfo) : VecLdStInfo :=
  set_elems_ (vec_push_back elem (elems_ r)) r.

(** Set the physical addresses and data value of the last added element.
    The body has no [assert]: three assignments through [elems_.back()]. *)
Definition setLastElem (pa pa2 data : uint64_t) (r : VecLdStInfo)
    : outcome VecLdStInfo :=
  es <- vec_modify_back (set_pa_ pa) (elems_ r) ;;
  es <- vec_modify_back (set_pa2_ pa2) es ;;
  es <- vec_modify_back (set_data_ data) es ;;
  Ok (set_elems_ es r).

(** Remove last added element. *)
Definition removeLastElem (ndebug : bool) (r : VecLdStInfo) : outcome VecLdStInfo :=
  _ <- assert_ ndebug (negb (vec_empty (elems_ r))) ;;
  es <- vec_resize (size_sub (vec_size (elems_ r)) 1) (elems_ r) ;;
  Ok (set_elems_ es r).

(** Returns true if all elements were skipped (mask or tail). *)
Definition allSkipped (r : VecLdStInfo) : bool :=
  all_of (fun elem => skip_ elem) (elems_ r).

(** ** Sequences of calls *)

(** The three configuration entry points with their arguments. *)
Inductive config : Type :=
| CfgInit (elemCount elemSize vecReg group : unsigned) (isLoad : bool)
| CfgIndexed (elemCount elemSize vecReg ixReg group ixGroup : unsigned) (isLoad : bool)
| CfgStrided (elemCount elemSize vecReg group : unsigned) (stride : uint64_t)
    (isLoad : bool).

Definition configure (c : config) (r : VecLdStInfo) : VecLdStInfo :=
  match c with
  | CfgInit elemCount elemSize vecReg group isLoad =>
      init elemCount elemSize vecReg group isLoad r
  | CfgIndexed elemCount elemSize vecReg ixReg group ixGroup isLoad =>
      initIndexed elemCount elemSize vecReg ixReg group ixGroup isLoad r
  | CfgStrided elemCount elemSize vecReg group stride isLoad =>
      initStrided elemCount elemSize vecReg group stride isLoad r
  end.

(** One call of a mutating member function. *)
Inductive call : Type :=
| CallClear
| CallConfigure (c : config)
| CallSetFieldCount (fields : unsigned) (isSeg : bool)
| CallAddElem (elem : VecLdStElem)
| CallSetLastElem (pa pa2 data : uint64_t)
| CallRemoveLastElem.

Definition exec (ndebug : bool) (c : call) (r : VecLdStInfo) : outcome VecLdStInfo :=
  match c with
  | CallClear => Ok (clear r)
  | CallConfigure cfg => Ok (configure cfg r)
  | CallSetFieldCount fields isSeg => Ok (setFieldCount fields isSeg r)
  | CallAddElem elem => Ok (addElem elem r)
  | CallSetLastElem pa pa2 data => setLastElem pa pa2 data r
  | CallRemoveLastElem => removeLastElem ndebug r
  end.

Fixpoint run (ndebug : bool) (cs : list call) (r : VecLdStInfo) : outcome VecLdStInfo :=
  match cs with
  | [] => Ok r
  | c :: cs' => r' <- exec ndebug c r ;; run ndebug cs' r'
  end.

(** The records a program can hold: the default-initialised one and every
    record a returning call makes of a reachable one. *)
Inductive reachable (ndebug : bool) : VecLdStInfo -> Prop :=
| reachable_default : reachable ndebug VecLdStInfo_default
| reachable_call (c : call) (r r' : VecLdStInfo) :
    reachable ndebug r -> exec ndebug c r = Ok r' -> reachable ndebug r'.

(** [addElem] once per element of [es], first element first. *)
Definition addElems (es : list VecLdStElem) (r : VecLdStInfo) : VecLdStInfo :=
  fold_left (fun acc elem => addElem elem acc) es r.

(** Every data member but [elems_] agrees. *)
Definition same_config (r r' : VecLdStInfo) : Prop :=
  elemCount_ r' = elemCount_ r /\ elemSize_ r' = elemSize_ r /\
  vec_ r' = vec_ r /\ ixVec_ r' = ixVec_ r /\ fields_ r' = fields_ r /\
  group_ r' = group_ r /\ ixGroup_ r' = ixGroup_ r /\ stride_ r' = stride_ r /\
  isLoad_ r' = isLoad_ r /\ isIndexed_ r' = isIndexed_ r /\
  isSegmented_ r' = isSegmented_ r /\ isStrided_ r' = isStrided_ r.

(** The two addressing-mode selectors are never both set. *)
Definition modes_exclusive (r : VecLdStInfo) : bool :=
  negb (isIndexed_ r && isStrided_ r).

(** Values that fit their C++ types. *)
Definition elem_wf (e : VecLdStElem) : Prop :=
  in_uint64 (va_ e) /\ in_uint64 (pa_ e) /\ in_uint64 (pa2_ e) /\
  in_uint64 (data_ e) /\ in_unsigned (ix_ e) /\ in_unsigned (field_ e).

Definition info_wf (r : VecLdStInfo) : Prop :=
  in_unsigned (elemCount_ r) /\ in_unsigned (elemSize_ r) /\ in_unsigned (vec_ r) /\
  in_unsigned (ixVec_ r) /\ in_unsigned (fields_ r) /\ in_unsigned (group_ r) /\
  in_unsigned (ixGroup_ r) /\ in_uint64 (stride_ r) /\ Forall elem_wf (elems_ r).

Definition config_wf (c : config) : Prop :=
  match c with
  | CfgInit elemCount elemSize vecReg group _ =>
      in_unsigned elemCount /\ in_unsigned elemSize /\ in_unsigned vecReg /\
      in_unsigned group
  | CfgIndexed elemCount elemSize vecReg ixReg group ixGroup _ =>
      in_unsigned elemCount /\ in_unsigned elemSize /\ in_unsigned vecReg /\
      in_unsigned ixReg /\ in_unsigned group /\ in_unsigned ixGroup
  | CfgStrided elemCount elemSize vecReg group stride _ =>
      in_unsigned elemCount /\ in_unsigned elemSize /\ in_unsigned vecReg /\
      in_unsigned group /\ in_uint64 stride
  end.

Definition call_wf (c : call) : Prop :=
  match c with
  | CallClear | CallRemoveLastElem => True
  | CallConfigure cfg => config_wf cfg
  | CallSetFieldCount fields _ => in_unsigned fields
  | CallAddElem elem => elem_wf elem
  | CallSetLastElem pa pa2 data => in_uint64 pa /\ in_uint64 pa2 /\ in_uint64 data
  end.

(** [removeLastElem] called [k] times in a row. *)
Fixpoint removeLastElems (ndebug : bool) (k : nat) (r : VecLdStInfo)
    : outcome VecLdStInfo :=
  match k with
  | O => Ok r
  | S k' => r' <- removeLastElem ndebug r ;; removeLastElems ndebug k' r'
  end.

(** The calls that act on the element sequence and on nothing else. *)
Definition elem_call (c : call) : bool :=
  match c with
  | CallAddElem _ | CallSetLastElem _ _ _ | CallRemoveLastElem => true
  | CallClear | CallConfigure _ | CallSetFieldCount _ _ => false
  end.

(** * Properties *)

(** ** The vector *)

Lemma snoc_cases (v : vec) : v = [] \/ exists front e, v = front ++ [e].
Proof.
  destruct v as [|x v]; [now left | right].
  destruct (exists_last (l := x :: v)) as (front & e & ->); [discriminate|].
  now exists front, e.
Qed.

Lemma vec_empty_nil (v : vec) : vec_empty v = true <-> v = [].
Proof. destruct v; simpl; split; congruence. Qed.

Lemma vec_modify_back_nil f : vec_modify_back f [] = Undefined.
Proof. reflexivity. Qed.

Lemma vec_modify_back_snoc f (front : vec) e :
  vec_modify_back f (front ++ [e]) = Ok (front ++ [f e]).
Proof.
  induction front as [|x front IH]; [reflexivity|].
  change ((x :: front) ++ [e]) with (x :: (front ++ [e])).
  simpl vec_modify_back. rewrite IH.
  destruct (front ++ [e]) eqn:E; [|reflexivity].
  now destruct front.
Qed.

Lemma vec_size_snoc (front : vec) e : vec_size (front ++ [e]) = vec_size front + 1.
Proof. unfold vec_size. rewrite length_app. simpl. lia. Qed.

Lemma vec_max_size_lt : vec_max_size < 2 ^ 64 - 1.
Proof. now vm_compute. Qed.

Lemma size_sub_succ (n : size_t) : n + 1 <= vec_max_size -> size_sub (n + 1) 1 = n.
Proof.
  intros H. pose proof vec_max_size_lt as Hm. unfold size_sub.
  rewrite (N.mod_small 1) by now vm_compute.
  replace (n + 1 + 2 ^ 64 - 1) with (n + 1 * 2 ^ 64) by lia.
  rewrite N.Div0.mod_add. apply N.mod_small. lia.
Qed.

Lemma size_sub_zero : size_sub 0 1 = 2 ^ 64 - 1.
Proof. now vm_compute. Qed.

(** [resize(size() - 1)] on a non-empty vector drops its last element. *)
Lemma vec_resize_pop (front : vec) e :
  vec_valid (front ++ [e]) ->
  vec_resize (size_sub (vec_size (front ++ [e])) 1) (front ++ [e]) = Ok front.
Proof.
  unfold vec_valid. rewrite vec_size_snoc. intros Hv.
  rewrite size_sub_succ by exact Hv. unfold vec_resize.
  rewrite vec_size_snoc.
  destruct (N.leb_spec (vec_size front) (vec_size front + 1)) as [_|Hlt]; [|lia].
  unfold vec_size. rewrite Nat2N.id, firstn_app, Nat.sub_diag, firstn_all.
  simpl. now rewrite app_nil_r.
Qed.

(** [resize(size() - 1)] on an empty vector asks for 2^64 - 1 elements. *)
Lemma vec_resize_wrapped : vec_resize (size_sub (vec_size []) 1) [] = LengthError.
Proof. now vm_compute. Qed.

(** ** Field-by-field effect of the setters *)

Lemma set_elems_same (r : VecLdStInfo) : set_elems_ (elems_ r) r = r.
Proof. now destruct r. Qed.

Lemma same_config_refl r : same_config r r.
Proof. now repeat split. Qed.

Lemma same_config_set_elems v r : same_config r (set_elems_ v r).
Proof. now repeat split. Qed.

Lemma elems_configure c r : elems_ (configure c r) = elems_ r.
Proof. now destruct c. Qed.

Lemma elems_addElems es r : elems_ (addElems es r) = elems_ r ++ es.
Proof.
  revert r. induction es as [|e es IH]; intros r; simpl.
  - now rewrite app_nil_r.
  - unfold addElems in *. simpl. rewrite IH. simpl.
    unfold vec_push_back. now rewrite <- app_assoc.
Qed.

Lemma same_config_addElems es r : same_config r (addElems es r).
Proof.
  revert r. induction es as [|e es IH]; intros r; [apply same_config_refl|].
  unfold addElems in *. simpl. specialize (IH (addElem e r)).
  unfold same_config in *. simpl in IH. exact IH.
Qed.

(** ** What a returning [setLastElem] or [removeLastElem] can change *)

Lemma setLastElem_snoc pa pa2 data r (front : vec) e :
  elems_ r = front ++ [e] ->
  setLastElem pa pa2 data r =
    Ok (set_elems_
          (front ++ [mkVecLdStElem (va_ e) pa pa2 data (ix_ e) (field_ e) (skip_ e)]) r).
Proof.
  intros E. unfold setLastElem. rewrite E.
  rewrite vec_modify_back_snoc. cbn [bind].
  rewrite vec_modify_back_snoc. cbn [bind].
  rewrite vec_modify_back_snoc. cbn [bind].
  reflexivity.
Qed.

Lemma setLastElem_nil pa pa2 data r : elems_ r = [] -> setLastElem pa pa2 data r = Undefined.
Proof. intros E. unfold setLastElem. now rewrite E. Qed.

Lemma removeLastElem_snoc ndebug r (front : vec) e :
  elems_ r = front ++ [e] -> vec_valid (elems_ r) ->
  removeLastElem ndebug r = Ok (set_elems_ front r).
Proof.
  intros E Hv. unfold removeLastElem. rewrite E in *.
  replace (vec_empty (front ++ [e])) with false by now destruct front.
  replace (assert_ ndebug (negb false)) with (Ok tt) by now destruct ndebug.
  cbn [bind]. now rewrite vec_resize_pop.
Qed.

Lemma removeLastElem_nil ndebug r :
  elems_ r = [] ->
  removeLastElem ndebug r = if ndebug then LengthError else AssertFail.
Proof.
  intros E. unfold removeLastElem. rewrite E. destruct ndebug; [|reflexivity].
  cbn [vec_empty negb assert_ bind]. now rewrite vec_resize_wrapped.
Qed.

Lemma setLastElem_same_config pa pa2 data r r' :
  setLastElem pa pa2 data r = Ok r' -> same_config r r'.
Proof.
  destruct (snoc_cases (elems_ r)) as [E | (front & e & E)].
  - rewrite (setLastElem_nil _ _ _ _ E). discriminate.
  - rewrite (setLastElem_snoc _ _ _ _ _ _ E). intros [= <-].
    apply same_config_set_elems.
Qed.

Lemma removeLastElem_same_config ndebug r r' :
  removeLastElem ndebug r = Ok r' -> same_config r r'.
Proof.
  unfold removeLastElem.
  destruct (assert_ ndebug _); cbn [bind]; try discriminate.
  destruct (vec_resize _ _); cbn [bind]; try discriminate.
  intros [= <-]. apply same_config_set_elems.
Qed.

Lemma modes_exclusive_same_config r r' :
  same_config r r' -> modes_exclusive r = true -> modes_exclusive r' = true.
Proof.
  unfold same_config, modes_exclusive.
  intros (_ & _ & _ & _ & _ & _ & _ & _ & _ & -> & _ & ->). exact (fun H => H).
Qed.

Lemma modes_exclusive_exec ndebug c r r' :
  exec ndebug c r = Ok r' -> modes_exclusive r = true -> modes_exclusive r' = true.
Proof.
  destruct c as [|cfg|fields isSeg|elem|pa pa2 data|]; simpl.
  - intros [= <-]. exact (fun H => H).
  - intros [= <-] _. now destruct cfg.
  - intros [= <-]. exact (fun H => H).
  - intros [= <-]. exact (fun H => H).
  - intros H. apply modes_exclusive_same_config.
    exact (setLastElem_same_config _ _ _ _ _ H).
  - intros H. apply modes_exclusive_same_config.
    exact (removeLastElem_same_config _ _ _ H).
Qed.

(** A returning run of calls from a reachable record ends in one. *)
Lemma run_reachable ndebug cs r r' :
  reachable ndebug r -> run ndebug cs r = Ok r' -> reachable ndebug r'.
Proof.
  revert r. induction cs as [|c cs IH]; intros r Hr; simpl.
  - now intros [= <-].
  - destruct (exec ndebug c r) as [r1| | |] eqn:E; cbn [bind]; try discriminate.
    apply IH. exact (reachable_call ndebug c r r1 Hr E).
Qed.

(** ** Typed values stay typed

    The members are modelled as unbounded naturals; the calls only store
    their arguments, so arguments within the range of their C++ types keep
    every member within the range of its type. *)

Lemma vec_resize_Forall (P : VecLdStElem -> Prop) n (v v' : vec) :
  P VecLdStElem_default -> Forall P v -> vec_resize n v = Ok v' -> Forall P v'.
Proof.
  intros Hd Hv. unfold vec_resize.
  destruct (n <=? vec_size v).
  - intros [= <-]. rewrite <- (firstn_skipn (N.to_nat n) v) in Hv.
    now apply Forall_app in Hv.
  - destruct (vec_max_size <? n); [discriminate|]. intros [= <-].
    apply Forall_app. split; [exact Hv|].
    apply Forall_forall. intros y Hy. now rewrite (repeat_spec _ _ _ Hy).
Qed.

Lemma info_wf_same_config r r' :
  same_config r r' -> Forall elem_wf (elems_ r') -> info_wf r -> info_wf r'.
Proof.
  unfold same_config, info_wf.
  intros (-> & -> & -> & -> & -> & -> & -> & -> & _) He H.
  repeat split; try apply H. exact He.
Qed.

Lemma exec_preserves_wf ndebug c r r' :
  info_wf r -> call_wf c -> exec ndebug c r = Ok r' -> info_wf r'.
Proof.
  intros Hr Hc.
  assert (H0 : in_unsigned 0) by reflexivity.
  destruct c as [|cfg|fields isSeg|elem|pa pa2 data|]; simpl in *.
  - intros [= <-]. unfold info_wf in *. simpl. repeat split; try apply Hr; auto.
  - intros [= <-]. unfold info_wf in *.
    destruct cfg; simpl in *; repeat split; try apply Hr; try apply Hc; auto.
  - intros [= <-]. unfold info_wf in *. simpl. repeat split; try apply Hr; auto.
  - intros [= <-]. unfold info_wf in *. simpl. repeat split; try apply Hr.
    apply Forall_app. split; [apply Hr | now constructor].
  - intros H. pose proof (setLastElem_same_config _ _ _ _ _ H) as Hs.
    apply (info_wf_same_config r r' Hs); [|exact Hr].
    destruct (snoc_cases (elems_ r)) as [E | (front & e & E)].
    + rewrite (setLastElem_nil _ _ _ _ E) in H. discriminate.
    + rewrite (setLastElem_snoc _ _ _ _ _ _ E) in H. injection H as <-. simpl.
      destruct Hr as (_ & _ & _ & _ & _ & _ & _ & _ & He). rewrite E in He.
      apply Forall_app in He. destruct He as (Hf & He).
      apply Forall_app. split; [exact Hf|]. constructor; [|constructor].
      inversion He as [|? ? (Hva & _ & _ & _ & Hix & Hfield) _]; subst.
      unfold elem_wf. simpl. tauto.
  - intros H. pose proof (removeLastElem_same_config _ _ _ H) as Hs.
    apply (info_wf_same_config r r' Hs); [|exact Hr].
    unfold removeLastElem in H.
    destruct (assert_ ndebug _); cbn [bind] in H; try discriminate.
    destruct (vec_resize _ _) as [v'| | |] eqn:Ev; cbn [bind] in H; try discriminate.
    injection H as <-. simpl.
    destruct Hr as (_ & _ & _ & _ & _ & _ & _ & _ & He).
    apply (vec_resize_Forall elem_wf _ _ _ ltac:(repeat split) He Ev).
Qed.

(** * The claims *)

(** C1 (the code departs from the claim).  [setLastElem] has no emptiness
    check: on a record with an empty element sequence (the default record,
    or any record after [clear]) the call is undefined behaviour in every
    build, where its sibling [removeLastElem] stops at its [assert].  On a
    record with an appended element [setLastElem] returns. *)
Theorem setLastElem_empty_unchecked (pa pa2 data : uint64_t) (r : VecLdStInfo)
    (elem : VecLdStElem) :
  setLastElem pa pa2 data VecLdStInfo_default = Undefined /\
  setLastElem pa pa2 data (clear r) = Undefined /\
  removeLastElem false (clear r) = AssertFail /\
  returns (setLastElem pa pa2 data (addElem elem r)) = true.
Proof.
  repeat split; try reflexivity.
  now rewrite (setLastElem_snoc pa pa2 data (addElem elem r) (elems_ r) elem eq_refl).
Qed.

(** C2.  [removeLastElem] on an empty record (in particular a freshly
    cleared one) stops at the failed [assert] when assertions are compiled
    in, and in no build returns; on a record with at least one element it
    returns. *)
Theorem removeLastElem_checked :
  (forall r, removeLastElem false (clear r) = AssertFail) /\
  (forall r, elems_ r = [] -> removeLastElem false r = AssertFail) /\
  (forall ndebug r, elems_ r = [] -> returns (removeLastElem ndebug r) = false) /\
  (forall ndebug r, elems_ r <> [] -> vec_valid (elems_ r) ->
     returns (removeLastElem ndebug r) = true).
Proof.
  repeat split.
  - intros r E. now rewrite (removeLastElem_nil false r E).
  - intros ndebug r E. rewrite (removeLastElem_nil ndebug r E). now destruct ndebug.
  - intros ndebug r Hne Hv.
    destruct (snoc_cases (elems_ r)) as [E | (front & e & E)]; [contradiction|].
    now rewrite (removeLastElem_snoc ndebug r front e E Hv).
Qed.

Lemma removeLastElem_checked_witness :
  removeLastElem false VecLdStInfo_default = AssertFail /\
  returns (removeLastElem true VecLdStInfo_default) = false /\
  returns (removeLastElem false
             (addElem (VecLdStElem_new 4096 32768 32768 7 0 false 0)
                VecLdStInfo_default)) = true.
Proof.
  split; [|split].
  - exact (proj1 (proj2 removeLastElem_checked) VecLdStInfo_default eq_refl).
  - exact (proj1 (proj2 (proj2 removeLastElem_checked)) true VecLdStInfo_default eq_refl).
  - apply (proj2 (proj2 (proj2 removeLastElem_checked))).
    + simpl; discriminate.
    + vm_compute; discriminate.
Defined.

(** C3.  [init] clears both addressing-mode selectors, [initIndexed] sets
    is-indexed and clears is-strided, [initStrided] sets is-strided and
    clears is-indexed; so in every record reachable from the default one by
    member function calls at most one of the two selectors is set. *)
Theorem addressing_modes_exclusive :
  (forall elemCount elemSize vecReg group isLoad r,
     isIndexed_ (init elemCount elemSize vecReg group isLoad r) = false /\
     isStrided_ (init elemCount elemSize vecReg group isLoad r) = false) /\
  (forall elemCount elemSize vecReg ixReg group ixGroup isLoad r,
     isIndexed_ (initIndexed elemCount elemSize vecReg ixReg group ixGroup isLoad r) = true /\
     isStrided_ (initIndexed elemCount elemSize vecReg ixReg group ixGroup isLoad r) = false) /\
  (forall elemCount elemSize vecReg group stride isLoad r,
     isStrided_ (initStrided elemCount elemSize vecReg group stride isLoad r) = true /\
     isIndexed_ (initStrided elemCount elemSize vecReg group stride isLoad r) = false) /\
  (forall ndebug r, reachable ndebug r -> isIndexed_ r && isStrided_ r = false).
Proof.
  repeat split.
  intros ndebug r H. apply negb_true_iff. change (modes_exclusive r = true).
  induction H as [|c r r' _ IH Hexec]; [reflexivity|].
  exact (modes_exclusive_exec ndebug c r r' Hexec IH).
Qed.

Lemma addressing_modes_exclusive_witness :
  isIndexed_ (initStrided 4 8 2 1 64 true (initIndexed 4 8 2 3 1 1 true VecLdStInfo_default))
  && isStrided_ (initStrided 4 8 2 1 64 true (initIndexed 4 8 2 3 1 1 true VecLdStInfo_default))
  = false.
Proof.
  apply (proj2 (proj2 (proj2 addressing_modes_exclusive)) false).
  apply (reachable_call false (CallConfigure (CfgStrided 4 8 2 1 64 true))
           (initIndexed 4 8 2 3 1 1 true VecLdStInfo_default)); [|reflexivity].
  apply (reachable_call false (CallConfigure (CfgIndexed 4 8 2 3 1 1 true))
           VecLdStInfo_default); [|reflexivity].
  apply reachable_default.
Defined.

(** C4.  On a record with a non-empty element sequence [setLastElem]
    returns, and the new record differs from the old one only in the
    physical address, second physical address and data of the last
    element: that element keeps its virtual address, index, field and skip
    flag, the elements before it and the operation-level members are
    unchanged. *)
Theorem setLastElem_frame (pa pa2 data : uint64_t) (r : VecLdStInfo)
    (Hne : elems_ r <> []) :
  exists (front : vec) (e : VecLdStElem) (r' : VecLdStInfo),
    elems_ r = front ++ [e] /\
    setLastElem pa pa2 data r = Ok r' /\
    elems_ r' =
      front ++ [mkVecLdStElem (va_ e) pa pa2 data (ix_ e) (field_ e) (skip_ e)] /\
    same_config r r'.
Proof.
  destruct (snoc_cases (elems_ r)) as [E | (front & e & E)]; [contradiction|].
  exists front, e. eexists. split; [exact E|]. split.
  - exact (setLastElem_snoc pa pa2 data r front e E).
  - split; [reflexivity | apply same_config_set_elems].
Qed.

Lemma setLastElem_frame_witness :
  exists (front : vec) (e : VecLdStElem) (r' : VecLdStInfo),
    [VecLdStElem_new 4096 0 0 0 0 false 0; VecLdStElem_new 4104 0 0 0 1 true 0]
      = front ++ [e] /\
    setLastElem 32776 32776 255
      (addElems [VecLdStElem_new 4096 0 0 0 0 false 0; VecLdStElem_new 4104 0 0 0 1 true 0]
         (init 4 8 2 1 true VecLdStInfo_default)) = Ok r' /\
    elems_ r' =
      front ++ [mkVecLdStElem (va_ e) 32776 32776 255 (ix_ e) (field_ e) (skip_ e)] /\
    same_config
      (addElems [VecLdStElem_new 4096 0 0 0 0 false 0; VecLdStElem_new 4104 0 0 0 1 true 0]
         (init 4 8 2 1 true VecLdStInfo_default)) r'.
Proof.
  apply (setLastElem_frame 32776 32776 255
           (addElems [VecLdStElem_new 4096 0 0 0 0 false 0;
                      VecLdStElem_new 4104 0 0 0 1 true 0]
              (init 4 8 2 1 true VecLdStInfo_default))).
  simpl; discriminate.
Defined.

(** C5.  On a record with a non-empty element sequence [removeLastElem]
    returns a record whose sequence is one shorter: the last element is
    gone, the earlier ones and the operation-level members are unchanged.
    [addElem] followed by [removeLastElem] gives back the record it
    started from. *)
Theorem removeLastElem_pops :
  (forall ndebug r, elems_ r <> [] -> vec_valid (elems_ r) ->
     exists (front : vec) (e : VecLdStElem) (r' : VecLdStInfo),
       elems_ r = front ++ [e] /\
       removeLastElem ndebug r = Ok r' /\
       elems_ r' = front /\
       S (length (elems_ r')) = length (elems_ r) /\
       same_config r r') /\
  (forall ndebug r elem, vec_valid (elems_ (addElem elem r)) ->
     removeLastElem ndebug (addElem elem r) = Ok r).
Proof.
  split.
  - intros ndebug r Hne Hv.
    destruct (snoc_cases (elems_ r)) as [E | (front & e & E)]; [contradiction|].
    exists front, e, (set_elems_ front r). split; [exact E|]. split.
    + exact (removeLastElem_snoc ndebug r front e E Hv).
    + split; [reflexivity|]. split; [|apply same_config_set_elems].
      rewrite E, length_app. simpl. now rewrite Nat.add_1_r.
  - intros ndebug r elem Hv.
    rewrite (removeLastElem_snoc ndebug (addElem elem r) (elems_ r) elem eq_refl Hv).
    now destruct r.
Qed.

Lemma removeLastElem_pops_witness :
  (exists (front : vec) (e : VecLdStElem) (r' : VecLdStInfo),
     [VecLdStElem_new 4096 32768 32768 7 0 false 0;
      VecLdStElem_new 4104 32776 32776 9 1 false 0] = front ++ [e] /\
     removeLastElem false
       (addElems [VecLdStElem_new 4096 32768 32768 7 0 false 0;
                  VecLdStElem_new 4104 32776 32776 9 1 false 0]
          VecLdStInfo_default) = Ok r' /\
     elems_ r' = front /\
     S (length (elems_ r')) = 2%nat /\
     same_config
       (addElems [VecLdStElem_new 4096 32768 32768 7 0 false 0;
                  VecLdStElem_new 4104 32776 32776 9 1 false 0]
          VecLdStInfo_default) r') /\
  removeLastElem true
    (addElem (VecLdStElem_new 4104 32776 32776 9 1 false 0)
       (initStrided 4 8 2 1 64 false VecLdStInfo_default))
  = Ok (initStrided 4 8 2 1 64 false VecLdStInfo_default).
Proof.
  split.
  - apply (proj1 removeLastElem_pops false
             (addElems [VecLdStElem_new 4096 32768 32768 7 0 false 0;
                        VecLdStElem_new 4104 32776 32776 9 1 false 0]
                VecLdStInfo_default)).
    + simpl; discriminate.
    + vm_compute; discriminate.
  - apply (proj2 removeLastElem_pops true).
    vm_compute; discriminate.
Defined.

(** C6.  [allSkipped] is true exactly when every element of the sequence
    has its skip flag set: true on an empty record, false as soon as an
    element with skip = false has been appended, true after appending only
    elements with skip = true to an empty record. *)
Theorem allSkipped_spec :
  (forall r, allSkipped r = true <-> (forall e, In e (elems_ r) -> skip_ e = true)) /\
  (forall r, empty r = true -> allSkipped r = true) /\
  (forall r elem later,
     skip_ elem = false -> allSkipped (addElems later (addElem elem r)) = false) /\
  (forall r es,
     elems_ r = [] -> (forall e, In e es -> skip_ e = true) ->
     allSkipped (addElems es r) = true).
Proof.
  assert (Hiff : forall r,
             allSkipped r = true <-> (forall e, In e (elems_ r) -> skip_ e = true)).
  { intros r. unfold allSkipped, all_of. apply forallb_forall. }
  split; [exact Hiff|]. split; [|split].
  - intros r H. apply vec_empty_nil in H. unfold allSkipped. now rewrite H.
  - intros r elem later Hskip. apply not_true_iff_false. intros Hall.
    rewrite (proj1 (Hiff _) Hall elem) in Hskip; [discriminate|].
    rewrite elems_addElems. apply in_or_app. left.
    apply in_or_app. right. now left.
  - intros r es E Hes. apply Hiff. intros e.
    rewrite elems_addElems, E. simpl. apply Hes.
Qed.

Lemma allSkipped_spec_witness :
  allSkipped VecLdStInfo_default = true /\
  allSkipped
    (addElems [VecLdStElem_new 4104 0 0 0 1 true 0]
       (addElem (VecLdStElem_new 4096 32768 32768 7 0 false 0)
          (init 4 4 8 1 true VecLdStInfo_default))) = false /\
  allSkipped
    (addElems [VecLdStElem_new 4096 0 0 0 0 true 0; VecLdStElem_new 4100 0 0 0 1 true 0]
       (init 4 4 8 1 true VecLdStInfo_default)) = true.
Proof.
  split; [|split].
  - exact (proj1 (proj2 allSkipped_spec) VecLdStInfo_default eq_refl).
  - exact (proj1 (proj2 (proj2 allSkipped_spec))
             (init 4 4 8 1 true VecLdStInfo_default)
             (VecLdStElem_new 4096 32768 32768 7 0 false 0)
             [VecLdStElem_new 4104 0 0 0 1 true 0] eq_refl).
  - apply (proj2 (proj2 (proj2 allSkipped_spec))); [reflexivity|].
    intros e [<- | [<- | []]]; reflexivity.
Defined.

(** C7, as the code has it.  No configuration call touches the element
    sequence, so a record that still holds elements keeps them: one
    element, [init], one [addElem] leaves two elements, not one. *)
Lemma configure_keeps_elements :
  elems_
    (addElems [VecLdStElem_new 4104 32776 32776 9 0 false 0]
       (init 4 4 8 1 true
          (addElem (VecLdStElem_new 4096 32768 32768 7 3 true 0) VecLdStInfo_default)))
  = [VecLdStElem_new 4096 32768 32768 7 3 true 0;
     VecLdStElem_new 4104 32776 32776 9 0 false 0] /\
  length
    (elems_
       (addElems [VecLdStElem_new 4104 32776 32776 9 0 false 0]
          (init 4 4 8 1 true
             (addElem (VecLdStElem_new 4096 32768 32768 7 3 true 0) VecLdStInfo_default))))
  <> length [VecLdStElem_new 4104 32776 32776 9 0 false 0].
Proof. split; [reflexivity | simpl; discriminate]. Qed.

(** C7, amended.  On a record whose element sequence is empty (the default
    record, or one after [clear]), a configuration call followed by N
    [addElem] calls leaves exactly the N appended elements, each at the
    position of its call. *)
Theorem configure_append_order (c : config) (es : list VecLdStElem) (r : VecLdStInfo)
    (Hempty : elems_ r = []) :
  length (elems_ (addElems es (configure c r))) = length es /\
  (forall i, nth_error (elems_ (addElems es (configure c r))) i = nth_error es i) /\
  elems_ (addElems es (configure c r)) = es.
Proof.
  assert (E : elems_ (addElems es (configure c r)) = es).
  { now rewrite elems_addElems, elems_configure, Hempty. }
  rewrite E. now repeat split.
Qed.

Lemma configure_append_order_witness :
  length
    (elems_
       (addElems [VecLdStElem_new 4096 32768 32768 7 0 false 0;
                  VecLdStElem_new 4100 0 0 0 1 true 0;
                  VecLdStElem_new 4104 32776 32776 9 2 false 0;
                  VecLdStElem_new 4108 32780 32780 11 3 false 0]
          (configure (CfgInit 4 4 8 1 true) (clear VecLdStInfo_default)))) = 4%nat.
Proof.
  exact (proj1 (configure_append_order (CfgInit 4 4 8 1 true)
                  [VecLdStElem_new 4096 32768 32768 7 0 false 0;
                   VecLdStElem_new 4100 0 0 0 1 true 0;
                   VecLdStElem_new 4104 32776 32776 9 2 false 0;
                   VecLdStElem_new 4108 32780 32780 11 3 false 0]
                  (clear VecLdStInfo_default) eq_refl)).
Defined.

(** C8.  [clear] sets the element size to zero and empties the element
    sequence, so [empty] holds afterwards; every other member keeps its
    value. *)
Theorem clear_frame (r : VecLdStInfo) :
  elemSize_ (clear r) = 0 /\ elems_ (clear r) = [] /\ empty (clear r) = true /\
  elemCount_ (clear r) = elemCount_ r /\ vec_ (clear r) = vec_ r /\
  ixVec_ (clear r) = ixVec_ r /\ fields_ (clear r) = fields_ r /\
  group_ (clear r) = group_ r /\ ixGroup_ (clear r) = ixGroup_ r /\
  stride_ (clear r) = stride_ r /\ isLoad_ (clear r) = isLoad_ r /\
  isIndexed_ (clear r) = isIndexed_ r /\ isSegmented_ (clear r) = isSegmented_ r /\
  isStrided_ (clear r) = isStrided_ r.
Proof. now repeat split. Qed.

(** C9.  [init] sets the index register and the field count to 0 and the
    three mode flags to false, and assigns neither [ixGroup_] nor
    [stride_]: after [initIndexed] or [initStrided], a plain [init] leaves
    the index group multiplier and the stride of the earlier configuration
    in place. *)
Theorem init_keeps_stale_members
    (elemCount elemSize vecReg group : unsigned) (isLoad : bool)
    (elemCount0 elemSize0 vecReg0 ixReg0 group0 ixGroup0 : unsigned)
    (stride0 : uint64_t) (isLoad0 : bool) (r : VecLdStInfo) :
  (ixVec_ (init elemCount elemSize vecReg group isLoad r) = 0 /\
   fields_ (init elemCount elemSize vecReg group isLoad r) = 0 /\
   isIndexed_ (init elemCount elemSize vecReg group isLoad r) = false /\
   isSegmented_ (init elemCount elemSize vecReg group isLoad r) = false /\
   isStrided_ (init elemCount elemSize vecReg group isLoad r) = false /\
   ixGroup_ (init elemCount elemSize vecReg group isLoad r) = ixGroup_ r /\
   stride_ (init elemCount elemSize vecReg group isLoad r) = stride_ r) /\
  (ixGroup_ (init elemCount elemSize vecReg group isLoad
               (initIndexed elemCount0 elemSize0 vecReg0 ixReg0 group0 ixGroup0 isLoad0 r))
     = ixGroup0 /\
   ixVec_ (init elemCount elemSize vecReg group isLoad
             (initIndexed elemCount0 elemSize0 vecReg0 ixReg0 group0 ixGroup0 isLoad0 r))
     = 0 /\
   isIndexed_ (init elemCount elemSize vecReg group isLoad
                 (initIndexed elemCount0 elemSize0 vecReg0 ixReg0 group0 ixGroup0 isLoad0 r))
     = false) /\
  (stride_ (init elemCount elemSize vecReg group isLoad
              (initStrided elemCount0 elemSize0 vecReg0 group0 stride0 isLoad0 r))
     = stride0 /\
   isStrided_ (init elemCount elemSize vecReg group isLoad
                 (initStrided elemCount0 elemSize0 vecReg0 group0 stride0 isLoad0 r))
     = false).
Proof. now repeat split. Qed.

(** C10.  [allSkipped] reads the skip flags of the elements and nothing
    else: records with the same flags agree whatever their active length,
    [addElem] stores the flag it is given, and an element whose index is at
    or beyond [elemCount_] with skip = false makes [allSkipped] false. *)
Theorem allSkipped_ignores_elemCount :
  (forall r r', map skip_ (elems_ r) = map skip_ (elems_ r') ->
     allSkipped r = allSkipped r') /\
  (forall elemCount r, allSkipped (set_elemCount_ elemCount r) = allSkipped r) /\
  (forall r elem, elems_ (addElem elem r) = elems_ r ++ [elem]) /\
  (forall r e, In e (elems_ r) -> elemCount_ r <= ix_ e -> skip_ e = false ->
     allSkipped r = false).
Proof.
  split; [|split; [|split]].
  - intros r r' H. unfold allSkipped, all_of.
    assert (G : forall v : vec, forallb (fun elem => skip_ elem) v
                                = forallb (fun b : bool => b) (map skip_ v)).
    { induction v as [|x v IH]; simpl; [reflexivity | now rewrite IH]. }
    now rewrite !G, H.
  - reflexivity.
  - reflexivity.
  - intros r e Hin _ Hskip. apply not_true_iff_false. intros Hall.
    unfold allSkipped, all_of in Hall.
    rewrite (proj1 (forallb_forall _ _) Hall e Hin) in Hskip. discriminate.
Qed.

Lemma allSkipped_ignores_elemCount_witness :
  allSkipped
    (addElem (VecLdStElem_new 4112 32784 32784 5 6 false 0)
       (init 4 4 8 1 true VecLdStInfo_default)) = false.
Proof.
  apply (proj2 (proj2 (proj2 allSkipped_ignores_elemCount))
           (addElem (VecLdStElem_new 4112 32784 32784 5 6 false 0)
              (init 4 4 8 1 true VecLdStInfo_default))
           (VecLdStElem_new 4112 32784 32784 5 6 false 0)).
  - now left.
  - vm_compute; discriminate.
  - reflexivity.
Defined.

(** * Further properties of the member functions *)

(** ** Shared lemmas *)

Lemma size_sub_pred_le (n : size_t) : 0 < n -> size_sub n 1 <= n - 1.
Proof.
  intros Hn. unfold size_sub.
  rewrite (N.mod_small 1) by now vm_compute.
  replace (n + 2 ^ 64 - 1) with (n - 1 + 1 * 2 ^ 64) by lia.
  rewrite N.Div0.mod_add. apply N.Div0.mod_le.
Qed.

(** A returning [removeLastElem] leaves a prefix of the sequence: the
    growing branch of [resize] is never taken. *)
Lemma removeLastElem_prefix ndebug r r' :
  removeLastElem ndebug r = Ok r' ->
  exists k, r' = set_elems_ (firstn k (elems_ r)) r.
Proof.
  unfold removeLastElem, vec_resize.
  destruct (assert_ ndebug _); cbn [bind]; try discriminate.
  generalize (vec_size (elems_ r)). intros n.
  destruct (N.leb_spec (size_sub n 1) n) as [_|Hgt]; cbn [bind].
  - intros [= <-]. now eexists.
  - destruct (N.ltb_spec vec_max_size (size_sub n 1)) as [_|Hle]; [discriminate|].
    exfalso. destruct (N.eq_dec n 0) as [-> | Hn].
    + rewrite size_sub_zero in Hle. pose proof vec_max_size_lt. lia.
    + pose proof (size_sub_pred_le n ltac:(lia)). lia.
Qed.

Lemma clear_same_config r r' : same_config r r' -> clear r' = clear r.
Proof.
  unfold same_config, clear.
  destruct r, r'; simpl. intros (-> & _ & -> & -> & -> & -> & -> & -> & -> & -> & -> & ->).
  reflexivity.
Qed.

Lemma same_config_trans r1 r2 r3 :
  same_config r1 r2 -> same_config r2 r3 -> same_config r1 r3.
Proof.
  unfold same_config.
  intros (-> & -> & -> & -> & -> & -> & -> & -> & -> & -> & -> & ->) H. exact H.
Qed.

Lemma elem_call_same_config ndebug c r r' :
  elem_call c = true -> exec ndebug c r = Ok r' -> same_config r r'.
Proof.
  destruct c as [|cfg|fields isSeg|elem|pa pa2 data|]; simpl; try discriminate; intros _.
  - intros [= <-]. apply same_config_set_elems.
  - apply setLastElem_same_config.
  - apply removeLastElem_same_config.
Qed.

Lemma vec_valid_front (front : vec) e : vec_valid (front ++ [e]) -> vec_valid front.
Proof. unfold vec_valid. rewrite vec_size_snoc. lia. Qed.

(** The effect of one returning call on the number of elements. *)
Lemma exec_length ndebug c r r' :
  vec_valid (elems_ r) -> exec ndebug c r = Ok r' ->
  length (elems_ r') =
    match c with
    | CallClear => 0%nat
    | CallAddElem _ => S (length (elems_ r))
    | CallRemoveLastElem => Nat.pred (length (elems_ r))
    | CallConfigure _ | CallSetFieldCount _ _ | CallSetLastElem _ _ _ =>
        length (elems_ r)
    end.
Proof.
  intros Hv.
  destruct c as [|cfg|fields isSeg|elem|pa pa2 data|]; simpl.
  - now intros [= <-].
  - intros [= <-]. now rewrite elems_configure.
  - now intros [= <-].
  - intros [= <-]. simpl. unfold vec_push_back. rewrite length_app. simpl.
    now rewrite Nat.add_1_r.
  - destruct (snoc_cases (elems_ r)) as [E | (front & e & E)].
    + rewrite (setLastElem_nil _ _ _ _ E). discriminate.
    + rewrite (setLastElem_snoc _ _ _ _ _ _ E). intros [= <-]. simpl.
      now rewrite E, !length_app.
  - destruct (snoc_cases (elems_ r)) as [E | (front & e & E)].
    + rewrite (removeLastElem_nil _ _ E). now destruct ndebug.
    + rewrite (removeLastElem_snoc _ _ _ _ E Hv). intros [= <-]. simpl.
      rewrite E, length_app. simpl. now rewrite Nat.add_1_r.
Qed.

Lemma addElems_snoc es e r : addElems (es ++ [e]) r = addElem e (addElems es r).
Proof. unfold addElems. now rewrite fold_left_app. Qed.

Lemma set_elems_same_addElem e r : set_elems_ (elems_ r) (addElem e r) = r.
Proof. now destruct r. Qed.

(** ** setFieldCount *)

(** X1.  [setFieldCount] assigns the field count and the segment flag and
    nothing else: the addressing-mode flags, the other operation-level
    members and the elements keep their values, and of two calls in a row
    the later one alone decides. *)
Theorem setFieldCount_frame (fields fields0 : unsigned) (isSeg isSeg0 : bool)
    (r : VecLdStInfo) :
  fields_ (setFieldCount fields isSeg r) = fields /\
  isSegmented_ (setFieldCount fields isSeg r) = isSeg /\
  elemCount_ (setFieldCount fields isSeg r) = elemCount_ r /\
  elemSize_ (setFieldCount fields isSeg r) = elemSize_ r /\
  vec_ (setFieldCount fields isSeg r) = vec_ r /\
  ixVec_ (setFieldCount fields isSeg r) = ixVec_ r /\
  group_ (setFieldCount fields isSeg r) = group_ r /\
  ixGroup_ (setFieldCount fields isSeg r) = ixGroup_ r /\
  stride_ (setFieldCount fields isSeg r) = stride_ r /\
  isLoad_ (setFieldCount fields isSeg r) = isLoad_ r /\
  isIndexed_ (setFieldCount fields isSeg r) = isIndexed_ r /\
  isStrided_ (setFieldCount fields isSeg r) = isStrided_ r /\
  elems_ (setFieldCount fields isSeg r) = elems_ r /\
  setFieldCount fields isSeg (setFieldCount fields0 isSeg0 r)
    = setFieldCount fields isSeg r.
Proof. now repeat split. Qed.

(** X2.  Every configuration call wipes an earlier [setFieldCount]: the
    field count is 0 and the segment flag false after it, whatever was set
    before, so [setFieldCount] has to follow the configuration call; called
    after it, the field count and flag stay until the next configuration. *)
Theorem configure_discards_field_count (c : config) (fields : unsigned) (isSeg : bool)
    (r : VecLdStInfo) :
  configure c (setFieldCount fields isSeg r) = configure c r /\
  fields_ (configure c r) = 0 /\
  isSegmented_ (configure c r) = false /\
  fields_ (setFieldCount fields isSeg (configure c r)) = fields /\
  isSegmented_ (setFieldCount fields isSeg (configure c r)) = isSeg /\
  isIndexed_ (setFieldCount fields isSeg (configure c r)) = isIndexed_ (configure c r) /\
  isStrided_ (setFieldCount fields isSeg (configure c r)) = isStrided_ (configure c r).
Proof. destruct c; vm_compute; now repeat split. Qed.

(** ** Invariants of reachable records *)

Lemma ixVec_exec ndebug c r r' :
  exec ndebug c r = Ok r' ->
  (isIndexed_ r = false -> ixVec_ r = 0) ->
  isIndexed_ r' = false -> ixVec_ r' = 0.
Proof.
  assert (Hs : forall r1 r2, same_config r1 r2 ->
                 (isIndexed_ r1 = false -> ixVec_ r1 = 0) ->
                 isIndexed_ r2 = false -> ixVec_ r2 = 0).
  { unfold same_config.
    intros r1 r2 (_ & _ & _ & -> & _ & _ & _ & _ & _ & -> & _). exact (fun H => H). }
  destruct c as [|cfg|fields isSeg|elem|pa pa2 data|]; simpl.
  - intros [= <-]. exact (fun H => H).
  - intros [= <-] _. destruct cfg; simpl; [reflexivity | discriminate | reflexivity].
  - intros [= <-]. exact (fun H => H).
  - intros [= <-]. exact (fun H => H).
  - intros H. exact (Hs _ _ (setLastElem_same_config _ _ _ _ _ H)).
  - intros H. exact (Hs _ _ (removeLastElem_same_config _ _ _ H)).
Qed.

(** X3.  In every record reachable from the default one by member function
    calls, the base index register is 0 whenever the record is not indexed:
    only [initIndexed] stores a register there, and every later
    configuration call sets it back to 0. *)
Theorem ixVec_zero_unless_indexed (ndebug : bool) (r : VecLdStInfo)
    (Hreach : reachable ndebug r) (Hplain : isIndexed_ r = false) :
  ixVec_ r = 0.
Proof.
  revert Hplain. induction Hreach as [|c r r' _ IH Hexec]; [reflexivity|].
  exact (ixVec_exec ndebug c r r' Hexec IH).
Qed.

Lemma ixVec_zero_unless_indexed_witness :
  ixVec_ (initStrided 4 8 2 1 64 true (initIndexed 4 8 2 3 1 1 true VecLdStInfo_default))
  = 0.
Proof.
  apply (ixVec_zero_unless_indexed false); [|reflexivity].
  apply (reachable_call false (CallConfigure (CfgStrided 4 8 2 1 64 true))
           (initIndexed 4 8 2 3 1 1 true VecLdStInfo_default)); [|reflexivity].
  apply (reachable_call false (CallConfigure (CfgIndexed 4 8 2 3 1 1 true))
           VecLdStInfo_default); [|reflexivity].
  apply reachable_default.
Defined.

(** ** Composition of the element calls *)

(** X4.  Of two [setLastElem] calls in a row the later one alone decides:
    the first leaves no trace in the record. *)
Theorem setLastElem_last_wins (pa pa2 data pa' pa2' data' : uint64_t)
    (r r1 : VecLdStInfo) (Hfirst : setLastElem pa pa2 data r = Ok r1) :
  setLastElem pa' pa2' data' r1 = setLastElem pa' pa2' data' r.
Proof.
  destruct (snoc_cases (elems_ r)) as [E | (front & e & E)].
  - rewrite (setLastElem_nil _ _ _ _ E) in Hfirst. discriminate.
  - rewrite (setLastElem_snoc _ _ _ _ _ _ E) in Hfirst. injection Hfirst as <-.
    rewrite (setLastElem_snoc pa' pa2' data' r front e E).
    match goal with
    | |- setLastElem _ _ _ ?r1 = _ =>
        now rewrite (setLastElem_snoc pa' pa2' data' r1 front _ eq_refl)
    end.
Qed.

Lemma setLastElem_last_wins_witness :
  setLastElem 36864 40960 17
    (set_elems_ [mkVecLdStElem 4096 32768 32768 7 0 0 false]
       (init 4 8 2 1 true VecLdStInfo_default))
  = setLastElem 36864 40960 17
      (addElem (VecLdStElem_new 4096 0 0 0 0 false 0)
         (init 4 8 2 1 true VecLdStInfo_default)).
Proof.
  apply (setLastElem_last_wins 32768 32768 7 36864 40960 17
           (addElem (VecLdStElem_new 4096 0 0 0 0 false 0)
              (init 4 8 2 1 true VecLdStInfo_default))
           (set_elems_ [mkVecLdStElem 4096 32768 32768 7 0 0 false]
              (init 4 8 2 1 true VecLdStInfo_default))).
  vm_compute; reflexivity.
Defined.

(** X5.  How [allSkipped] follows the element calls: after [addElem] it is
    the old answer and the new element's skip flag; a returning
    [setLastElem] does not change it; a returning [removeLastElem] keeps a
    true answer true. *)
Theorem allSkipped_incremental :
  (forall r elem, allSkipped (addElem elem r) = allSkipped r && skip_ elem) /\
  (forall pa pa2 data r r',
     setLastElem pa pa2 data r = Ok r' -> allSkipped r' = allSkipped r) /\
  (forall ndebug r r',
     removeLastElem ndebug r = Ok r' -> allSkipped r = true -> allSkipped r' = true).
Proof.
  split; [|split].
  - intros r elem. unfold allSkipped, all_of. simpl. unfold vec_push_back.
    rewrite forallb_app. simpl. now rewrite andb_true_r.
  - intros pa pa2 data r r' H.
    destruct (snoc_cases (elems_ r)) as [E | (front & e & E)].
    + rewrite (setLastElem_nil _ _ _ _ E) in H. discriminate.
    + rewrite (setLastElem_snoc _ _ _ _ _ _ E) in H. injection H as <-.
      unfold allSkipped, all_of. simpl. rewrite E. now rewrite !forallb_app.
  - intros ndebug r r' H Hall.
    destruct (removeLastElem_prefix ndebug r r' H) as (k & ->).
    unfold allSkipped, all_of in *. simpl.
    rewrite <- (firstn_skipn k (elems_ r)), forallb_app in Hall.
    now apply andb_true_iff in Hall.
Qed.

Lemma allSkipped_incremental_witness :
  allSkipped
    (set_elems_ [mkVecLdStElem 4096 32768 32768 7 0 0 true]
       (init 4 8 2 1 true VecLdStInfo_default))
  = allSkipped
      (addElem (VecLdStElem_new 4096 0 0 0 0 true 0)
         (init 4 8 2 1 true VecLdStInfo_default)) /\
  allSkipped (init 4 8 2 1 true VecLdStInfo_default) = true.
Proof.
  split.
  - apply (proj1 (proj2 allSkipped_incremental) 32768 32768 7
             (addElem (VecLdStElem_new 4096 0 0 0 0 true 0)
                (init 4 8 2 1 true VecLdStInfo_default))
             (set_elems_ [mkVecLdStElem 4096 32768 32768 7 0 0 true]
                (init 4 8 2 1 true VecLdStInfo_default))).
    vm_compute; reflexivity.
  - apply (proj2 (proj2 allSkipped_incremental) false
             (addElem (VecLdStElem_new 4096 0 0 0 0 true 0)
                (init 4 8 2 1 true VecLdStInfo_default))
             (init 4 8 2 1 true VecLdStInfo_default)).
    + vm_compute; reflexivity.
    + reflexivity.
Defined.

(** X6.  The element sequence is a stack: after k [addElem] calls, k
    [removeLastElem] calls all return and give back the record the appends
    started from. *)
Theorem removeLastElems_undo_addElems (ndebug : bool) (es : list VecLdStElem)
    (r : VecLdStInfo) (Hv : vec_valid (elems_ (addElems es r))) :
  removeLastElems ndebug (length es) (addElems es r) = Ok r.
Proof.
  revert Hv. induction es as [|e es IH] using rev_ind; intros Hv; [reflexivity|].
  rewrite addElems_snoc in *. rewrite length_app, Nat.add_1_r.
  cbn [removeLastElems].
  rewrite (removeLastElem_snoc ndebug (addElem e (addElems es r))
             (elems_ (addElems es r)) e eq_refl Hv).
  cbn [bind]. rewrite set_elems_same_addElem. apply IH.
  exact (vec_valid_front _ e Hv).
Qed.

Lemma removeLastElems_undo_addElems_witness :
  removeLastElems true 3
    (addElems [VecLdStElem_new 4096 32768 32768 7 0 false 0;
               VecLdStElem_new 4104 0 0 0 1 true 0;
               VecLdStElem_new 4112 32784 32784 9 2 false 0]
       (addElem (VecLdStElem_new 4088 32760 32760 5 0 false 0) VecLdStInfo_default))
  = Ok (addElem (VecLdStElem_new 4088 32760 32760 5 0 false 0) VecLdStInfo_default).
Proof.
  apply (removeLastElems_undo_addElems true
           [VecLdStElem_new 4096 32768 32768 7 0 false 0;
            VecLdStElem_new 4104 0 0 0 1 true 0;
            VecLdStElem_new 4112 32784 32784 9 2 false 0]
           (addElem (VecLdStElem_new 4088 32760 32760 5 0 false 0) VecLdStInfo_default)).
  vm_compute; discriminate.
Defined.

(** X7.  A speculative append can be undone after it was patched:
    [addElem], [setLastElem], [removeLastElem] in this order all return and
    give back the record as it was before the append. *)
Theorem append_patch_drop (ndebug : bool) (pa pa2 data : uint64_t)
    (elem : VecLdStElem) (r : VecLdStInfo)
    (Hv : vec_valid (elems_ (addElem elem r))) :
  (r1 <- setLastElem pa pa2 data (addElem elem r) ;; removeLastElem ndebug r1) = Ok r.
Proof.
  rewrite (setLastElem_snoc pa pa2 data (addElem elem r) (elems_ r) elem eq_refl).
  cbn [bind].
  match goal with
  | |- removeLastElem _ ?r1 = _ =>
      rewrite (removeLastElem_snoc ndebug r1 (elems_ r) _ eq_refl)
  end.
  - now destruct r.
  - unfold vec_valid, vec_size in *. simpl in *. unfold vec_push_back in Hv.
    now rewrite length_app in *.
Qed.

Lemma append_patch_drop_witness :
  (r1 <- setLastElem 32768 32768 7
           (addElem (VecLdStElem_new 4096 0 0 0 0 false 0) VecLdStInfo_default) ;;
   removeLastElem false r1) = Ok VecLdStInfo_default.
Proof.
  apply (append_patch_drop false 32768 32768 7
           (VecLdStElem_new 4096 0 0 0 0 false 0) VecLdStInfo_default).
  vm_compute; discriminate.
Defined.

(** ** The number of elements *)

Lemma empty_length r : empty r = true <-> length (elems_ r) = 0%nat.
Proof. unfold empty. destruct (elems_ r); simpl; split; congruence. Qed.

Lemma nonempty_length r : empty r = false <-> length (elems_ r) <> 0%nat.
Proof. unfold empty. destruct (elems_ r); simpl; split; congruence. Qed.

(** X8.  What one returning call does to the number of elements: [clear]
    makes it 0, [addElem] adds one, [removeLastElem] takes one away, and
    the configuration calls, [setFieldCount] and [setLastElem] leave it as
    it is. *)
Theorem exec_elem_count (ndebug : bool) (c : call) (r r' : VecLdStInfo)
    (Hv : vec_valid (elems_ r)) (Hexec : exec ndebug c r = Ok r') :
  length (elems_ r') =
    match c with
    | CallClear => 0%nat
    | CallAddElem _ => S (length (elems_ r))
    | CallRemoveLastElem => Nat.pred (length (elems_ r))
    | CallConfigure _ | CallSetFieldCount _ _ | CallSetLastElem _ _ _ =>
        length (elems_ r)
    end.
Proof. exact (exec_length ndebug c r r' Hv Hexec). Qed.

Lemma exec_elem_count_witness :
  length
    (elems_ (addElem (VecLdStElem_new 4096 32768 32768 7 0 false 0) VecLdStInfo_default))
  = Nat.pred
      (length
         (elems_
            (addElems [VecLdStElem_new 4096 32768 32768 7 0 false 0;
                       VecLdStElem_new 4104 0 0 0 1 true 0]
               VecLdStInfo_default))).
Proof.
  apply (exec_elem_count false CallRemoveLastElem
           (addElems [VecLdStElem_new 4096 32768 32768 7 0 false 0;
                      VecLdStElem_new 4104 0 0 0 1 true 0]
              VecLdStInfo_default)
           (addElem (VecLdStElem_new 4096 32768 32768 7 0 false 0) VecLdStInfo_default)).
  - vm_compute; discriminate.
  - vm_compute; reflexivity.
Defined.

(** X9.  Between the empty and the populated record: a returning call
    takes an empty record to a populated one only if it is [addElem]; it
    takes a populated record to an empty one only if it is [clear], or
    [removeLastElem] on a record holding a single element. *)
Theorem empty_transitions (ndebug : bool) (c : call) (r r' : VecLdStInfo)
    (Hv : vec_valid (elems_ r)) (Hexec : exec ndebug c r = Ok r') :
  (empty r = true -> empty r' = false -> exists elem, c = CallAddElem elem) /\
  (empty r = false -> empty r' = true ->
     c = CallClear \/ (c = CallRemoveLastElem /\ length (elems_ r) = 1%nat)).
Proof.
  pose proof (exec_length ndebug c r r' Hv Hexec) as Hlen.
  rewrite empty_length, !nonempty_length, empty_length.
  split; intros H0 H1.
  - destruct c as [|cfg|fields isSeg|elem|pa pa2 data|];
      try (exfalso; rewrite Hlen in H1; rewrite ?H0 in H1; simpl in H1; congruence).
    now exists elem.
  - destruct c as [|cfg|fields isSeg|elem|pa pa2 data|];
      try (exfalso; rewrite Hlen in H1; congruence).
    + now left.
    + right. split; [reflexivity|]. rewrite Hlen in H1.
      destruct (length (elems_ r)) as [|[|n]]; simpl in H1; congruence.
Qed.

Lemma empty_transitions_witness :
  CallRemoveLastElem = CallClear \/
  (CallRemoveLastElem = CallRemoveLastElem /\
   length
     (elems_
        (addElem (VecLdStElem_new 4096 32768 32768 7 0 false 0) VecLdStInfo_default))
   = 1%nat).
Proof.
  apply (proj2 (empty_transitions false CallRemoveLastElem
                  (addElem (VecLdStElem_new 4096 32768 32768 7 0 false 0)
                     VecLdStInfo_default)
                  VecLdStInfo_default
                  ltac:(vm_compute; discriminate) ltac:(vm_compute; reflexivity)));
    reflexivity.
Defined.

(** ** Configuring a record again *)

(** X10.  A configuration call overwrites what an earlier one stored,
    except the two members only one entry point assigns: repeating the same
    entry point leaves no trace of the first call, while [initIndexed]
    after [initStrided] still carries the earlier stride and [initStrided]
    after [initIndexed] the earlier index group multiplier. *)
Theorem reconfigure_overwrites
    (elemCount elemSize vecReg ixReg group ixGroup : unsigned) (stride : uint64_t)
    (isLoad : bool)
    (elemCount0 elemSize0 vecReg0 ixReg0 group0 ixGroup0 : unsigned) (stride0 : uint64_t)
    (isLoad0 : bool) (r : VecLdStInfo) :
  init elemCount elemSize vecReg group isLoad
    (init elemCount0 elemSize0 vecReg0 group0 isLoad0 r)
  = init elemCount elemSize vecReg group isLoad r /\
  initIndexed elemCount elemSize vecReg ixReg group ixGroup isLoad
    (initIndexed elemCount0 elemSize0 vecReg0 ixReg0 group0 ixGroup0 isLoad0 r)
  = initIndexed elemCount elemSize vecReg ixReg group ixGroup isLoad r /\
  initStrided elemCount elemSize vecReg group stride isLoad
    (initStrided elemCount0 elemSize0 vecReg0 group0 stride0 isLoad0 r)
  = initStrided elemCount elemSize vecReg group stride isLoad r /\
  initIndexed elemCount elemSize vecReg ixReg group ixGroup isLoad
    (initStrided elemCount0 elemSize0 vecReg0 group0 stride0 isLoad0 r)
  = set_stride_ stride0
      (initIndexed elemCount elemSize vecReg ixReg group ixGroup isLoad r) /\
  initStrided elemCount elemSize vecReg group stride isLoad
    (initIndexed elemCount0 elemSize0 vecReg0 ixReg0 group0 ixGroup0 isLoad0 r)
  = set_ixGroup_ ixGroup0
      (initStrided elemCount elemSize vecReg group stride isLoad r).
Proof. destruct r. vm_compute. now repeat split. Qed.

(** X11.  Reuse across instructions: after [clear] and a configuration
    call, the record is the one the same configuration call makes of a
    default record that holds the old index group multiplier and stride;
    no other member and no element of the earlier instruction is left. *)
Theorem configure_after_clear (c : config) (r : VecLdStInfo) :
  configure c (clear r)
  = configure c (set_stride_ (stride_ r) (set_ixGroup_ (ixGroup_ r) VecLdStInfo_default)).
Proof. destruct c, r; vm_compute; reflexivity. Qed.

(** ** removeLastElem without its assertion *)

(** X12.  With [NDEBUG] defined the [assert] of [removeLastElem] is gone:
    on an empty record [size() - 1] wraps to 2^64 - 1, [resize] is asked
    for that many elements and throws [std::length_error]; the call does
    not return a record. *)
Theorem removeLastElem_ndebug_empty (r : VecLdStInfo) (Hempty : empty r = true) :
  size_sub (vec_size (elems_ r)) 1 = 18446744073709551615 /\
  removeLastElem true r = LengthError.
Proof.
  apply vec_empty_nil in Hempty. split.
  - rewrite Hempty. now vm_compute.
  - exact (removeLastElem_nil true r Hempty).
Qed.

Lemma removeLastElem_ndebug_empty_witness :
  size_sub (vec_size (elems_ (clear (addElem VecLdStElem_default VecLdStInfo_default)))) 1
  = 18446744073709551615 /\
  removeLastElem true (clear (addElem VecLdStElem_default VecLdStInfo_default))
  = LengthError.
Proof.
  exact (removeLastElem_ndebug_empty
           (clear (addElem VecLdStElem_default VecLdStInfo_default)) eq_refl).
Defined.

(** ** clear after element calls *)

(** X13.  Whatever returning sequence of [addElem], [setLastElem] and
    [removeLastElem] calls a record went through, its operation-level
    members are those it started with, and [clear] gives the same record
    as [clear] before the sequence. *)
Theorem clear_discards_element_calls (ndebug : bool) (cs : list call)
    (r r' : VecLdStInfo)
    (Hcs : forallb elem_call cs = true) (Hrun : run ndebug cs r = Ok r') :
  same_config r r' /\ clear r' = clear r.
Proof.
  assert (H : same_config r r').
  { revert r Hcs Hrun. induction cs as [|c cs IH]; intros r Hcs; simpl.
    - intros [= <-]. apply same_config_refl.
    - simpl in Hcs. apply andb_true_iff in Hcs. destruct Hcs as (Hc & Hcs).
      destruct (exec ndebug c r) as [r1| | |] eqn:E; cbn [bind]; try discriminate.
      intros Hrun. apply (same_config_trans r r1 r').
      + exact (elem_call_same_config ndebug c r r1 Hc E).
      + exact (IH r1 Hcs Hrun). }
  split; [exact H | exact (clear_same_config r r' H)].
Qed.

Lemma clear_discards_element_calls_witness :
  same_config (initStrided 4 8 2 1 64 true VecLdStInfo_default)
    (set_elems_ [mkVecLdStElem 4096 32768 32768 7 0 0 false]
       (initStrided 4 8 2 1 64 true VecLdStInfo_default)) /\
  clear (set_elems_ [mkVecLdStElem 4096 32768 32768 7 0 0 false]
           (initStrided 4 8 2 1 64 true VecLdStInfo_default))
  = clear (initStrided 4 8 2 1 64 true VecLdStInfo_default).
Proof.
  apply (clear_discards_element_calls false
           [CallAddElem (VecLdStElem_new 4096 0 0 0 0 false 0);
            CallSetLastElem 32768 32768 7;
            CallAddElem (VecLdStElem_new 4104 0 0 0 1 true 0);
            CallRemoveLastElem]
           (initStrided 4 8 2 1 64 true VecLdStInfo_default)
           (set_elems_ [mkVecLdStElem 4096 32768 32768 7 0 0 false]
              (initStrided 4 8 2 1 64 true VecLdStInfo_default))).
  - reflexivity.
  - vm_compute; reflexivity.
Defined.

End WdRiscv.
